(** * Sign-in page: a shallow embedding of [src/page/auth/Sign-in.tsx]

    The component collects an email and a password, validates them with a
    schema, hands the parsed values to a mutation and, when the mutation
    settles, either navigates or raises a toast.  The embedding keeps the
    pieces the component is made of:

    - [Js]: the JavaScript values and built-ins the component calls
      (strings as UTF-16 code units, truthiness, template interpolation,
      [String.prototype.trim], [decodeURIComponent], [URLSearchParams.get]);
    - [Zod]: string schemas as the ordered list of checks they are built
      from, and the parse loop that runs them;
    - [SignIn]: the component itself, as explicit state passing over the
      state its hooks hold, with the effects it performs kept in a trace;
      [step] takes one event on a page that has just rendered, [act] takes
      the page between renders, where the handlers still hold what the
      last render read. *)

From Stdlib Require Import ZArith List String Ascii Bool Arith Lia.
Import ListNotations.
Local Open Scope Z_scope.

(* ------------------------------------------------------------------ *)
(** ** JavaScript values and built-ins *)

Module Js.

(** A JavaScript string is a sequence of UTF-16 code units. *)
Definition jsstring := list Z.

(** An ASCII literal of the source, as code units. *)
Definition lit (s : string) : jsstring :=
  map (fun a => Z.of_N (N_of_ascii a)) (list_ascii_of_string s).

Definition jsstring_eqb (a b : jsstring) : bool :=
  if list_eq_dec Z.eq_dec a b then true else false.

(** The values a response field is read as: a missing property reads as
    [undefined]. *)
Inductive JsValue :=
| JsUndefined
| JsNull
| JsString (s : jsstring).

(** [ToString], as applied to a substitution of a template literal. *)
Definition ToString (v : JsValue) : jsstring :=
  match v with
  | JsUndefined => lit "undefined"
  | JsNull => lit "null"
  | JsString s => s
  end.

(** [ToBoolean] on a string: only the empty string is falsy. *)
Definition truthy (s : jsstring) : bool :=
  match s with
  | [] => false
  | _ :: _ => true
  end.

(** Exceptions the built-ins used here can raise. *)
Inductive Exn := URIError | TypeError.

Inductive Outcome (A : Type) :=
| Ok (a : A)
| Throw (e : Exn).
Arguments Ok {A} a.
Arguments Throw {A} e.

Definition bind {A B} (m : Outcome A) (k : A -> Outcome B) : Outcome B :=
  match m with
  | Ok a => k a
  | Throw e => Throw e
  end.

Notation "x <- m ;; k" := (bind m (fun x => k))
  (at level 61, m at next level, right associativity).

(** *** String.prototype.trim *)

(** WhiteSpace and LineTerminator code points of ECMAScript. *)
Definition isWhiteSpace (c : Z) : bool :=
  ((9 <=? c) && (c <=? 13))
  || (c =? 32) || (c =? 160) || (c =? 5760)
  || ((8192 <=? c) && (c <=? 8202))
  || (c =? 8232) || (c =? 8233) || (c =? 8239) || (c =? 8287)
  || (c =? 12288) || (c =? 65279).

Fixpoint trimStart (s : jsstring) : jsstring :=
  match s with
  | [] => []
  | c :: t => if isWhiteSpace c then trimStart t else s
  end.

Definition trimEnd (s : jsstring) : jsstring := rev (trimStart (rev s)).

Definition trim (s : jsstring) : jsstring := trimEnd (trimStart s).

(** Whether a string begins, or ends, with a character [trim] removes. *)
Definition startsWithSpace (s : jsstring) : bool :=
  match s with
  | [] => false
  | c :: _ => isWhiteSpace c
  end.

Definition endsWithSpace (s : jsstring) : bool := startsWithSpace (rev s).

(** *** decodeURIComponent *)

Definition percent : Z := 37.

Definition hexVal (c : Z) : option Z :=
  if (48 <=? c) && (c <=? 57) then Some (c - 48)
  else if (65 <=? c) && (c <=? 70) then Some (c - 55)
  else if (97 <=? c) && (c <=? 102) then Some (c - 87)
  else None.

(** Two hexadecimal digits at the head of [t], read as one octet. *)
Definition hexOctet (t : jsstring) : option (Z * jsstring) :=
  match t with
  | h1 :: h2 :: r =>
      match hexVal h1, hexVal h2 with
      | Some a, Some b => Some (16 * a + b, r)
      | _, _ => None
      end
  | _ => None
  end.

(** Number of leading one bits of an octet. *)
Definition leadingOnes (b : Z) : nat :=
  if b <? 128 then 0%nat
  else if b <? 192 then 1%nat
  else if b <? 224 then 2%nat
  else if b <? 240 then 3%nat
  else if b <? 248 then 4%nat
  else 5%nat.

(** [n] further escapes ["%XX"] at the head of [t]. *)
Fixpoint continuation (n : nat) (t : jsstring) : option (list Z) :=
  match n with
  | O => Some []
  | S n' =>
      match t with
      | c :: r =>
          if c =? percent then
            match hexOctet r with
            | Some (b, r') =>
                match continuation n' r' with
                | Some bs => Some (b :: bs)
                | None => None
                end
            | None => None
            end
          else None
      | [] => None
      end
  end.

Definition isContinuationByte (b : Z) : bool := Z.land b 192 =? 128.

Definition payload (b : Z) : Z := Z.land b 63.

(** The code point a sequence of octets encodes, when the sequence is a
    well-formed UTF-8 encoding of one code point (no overlong form, no
    surrogate, nothing above U+10FFFF). *)
Definition utf8CodePoint (octets : list Z) : option Z :=
  match octets with
  | [b0; b1] =>
      let v := Z.lor (Z.shiftl (Z.land b0 31) 6) (payload b1) in
      if isContinuationByte b1 && (128 <=? v) then Some v else None
  | [b0; b1; b2] =>
      let v := Z.lor (Z.shiftl (Z.land b0 15) 12)
                 (Z.lor (Z.shiftl (payload b1) 6) (payload b2)) in
      if isContinuationByte b1 && isContinuationByte b2
         && (2048 <=? v) && negb ((55296 <=? v) && (v <=? 57343))
      then Some v else None
  | [b0; b1; b2; b3] =>
      let v := Z.lor (Z.shiftl (Z.land b0 7) 18)
                 (Z.lor (Z.shiftl (payload b1) 12)
                    (Z.lor (Z.shiftl (payload b2) 6) (payload b3))) in
      if isContinuationByte b1 && isContinuationByte b2
         && isContinuationByte b3
         && (65536 <=? v) && (v <=? 1114111)
      then Some v else None
  | _ => None
  end.

Definition UTF16EncodeCodePoint (cp : Z) : jsstring :=
  if cp <? 65536 then [cp]
  else
    let cp' := cp - 65536 in
    [55296 + Z.shiftr cp' 10; 56320 + Z.land cp' 1023].

(** What one escape sequence decodes to.  [t] is the text after the ['%'];
    the result carries the decoded code units and the number of code units
    of [t] the sequence takes up. *)
Definition decodeEscape (t : jsstring) : option (jsstring * nat) :=
  match hexOctet t with
  | None => None
  | Some (b, r) =>
      match leadingOnes b with
      | 0%nat => Some ([b], 2%nat)
      | 1%nat => None
      | S (S m) =>
          if (2 <? m)%nat then None
          else
            match continuation (S m) r with
            | None => None
            | Some bs =>
                match utf8CodePoint (b :: bs) with
                | None => None
                | Some v => Some (UTF16EncodeCodePoint v, (2 + 3 * S m)%nat)
                end
            end
      end
  end.

(** The Decode loop.  [skip] counts the code units that an escape sequence
    already read has used up (the loop's [k] running ahead). *)
Fixpoint decodeFrom (skip : nat) (s : jsstring) : option jsstring :=
  match s with
  | [] => Some []
  | c :: t =>
      match skip with
      | S k => decodeFrom k t
      | O =>
          if c =? percent then
            match decodeEscape t with
            | None => None
            | Some (units, used) =>
                match decodeFrom used t with
                | Some r => Some (units ++ r)
                | None => None
                end
            end
          else
            match decodeFrom O t with
            | Some r => Some (c :: r)
            | None => None
            end
      end
  end.

(** [decodeURIComponent]: [None] stands for the URIError it raises on a
    malformed escape sequence. *)
Definition decodeURIComponent (s : jsstring) : option jsstring :=
  decodeFrom O s.

(** *** URLSearchParams.get *)

(** The parsed query string: name/value pairs in their order of appearance.
    [get] returns the first value under the name, [None] standing for
    [null]. *)
Fixpoint get (params : list (jsstring * jsstring)) (name : jsstring)
  : option jsstring :=
  match params with
  | [] => None
  | (k, v) :: rest => if jsstring_eqb k name then Some v else get rest name
  end.

End Js.

Import Js.

(* ------------------------------------------------------------------ *)
(** ** The schema library *)

Module Zod.

(** A string schema is the list of checks its builder calls have added, in
    the order they were added. *)
Inductive Check :=
| TrimCheck
| EmailCheck (message : jsstring)
| MinCheck (value : nat) (message : jsstring).

Definition ZodString := list Check.

Definition string : ZodString := [].
Definition trim (s : ZodString) : ZodString := s ++ [TrimCheck].
Definition email (message : jsstring) (s : ZodString) : ZodString :=
  s ++ [EmailCheck message].
Definition min (value : nat) (message : jsstring) (s : ZodString)
  : ZodString :=
  s ++ [MinCheck value message].

(** The result of a parse: the data as the checks left it, or the messages
    of the issues raised, in the order they were raised. *)
Inductive ParseResult :=
| Valid (data : jsstring)
| Invalid (issues : list jsstring).

Section Parse.

(** The address pattern the library tests an [email] check with. *)
Variable emailRegex : jsstring -> bool.

(** One turn of the loop over the checks: a trim replaces the data, the
    other checks raise an issue and leave the data alone. *)
Definition runCheck (c : Check) (data : jsstring)
  : jsstring * list jsstring :=
  match c with
  | TrimCheck => (Js.trim data, [])
  | EmailCheck m => (data, if emailRegex data then [] else [m])
  | MinCheck n m => (data, if (List.length data <? n)%nat then [m] else [])
  end.

(** The loop runs every check, also after an issue was raised. *)
Fixpoint runChecks (cs : list Check) (data : jsstring)
  : jsstring * list jsstring :=
  match cs with
  | [] => (data, [])
  | c :: rest =>
      let (d, here) := runCheck c data in
      let (d', later) := runChecks rest d in
      (d', here ++ later)
  end.

Definition safeParse (schema : ZodString) (data : jsstring) : ParseResult :=
  match runChecks schema data with
  | (d, []) => Valid d
  | (_, i :: more) => Invalid (i :: more)
  end.

End Parse.

(** *** The address pattern

    The pattern the library's [email] check has in its recent releases,
    with every starred item written [{0,}] here:
    [/^(?!\.)(?!.{0,}\.\.)([A-Z0-9_'+\-\.]{0,})[A-Z0-9_+-]@([A-Z0-9][A-Z0-9\-]{0,}\.)+[A-Z]{2,}$/i].
    It is written out below as a test on code units; the flag [i] makes the
    letter classes match both cases. *)

Definition isDigit (c : Z) : bool := (48 <=? c) && (c <=? 57).
Definition isLetter (c : Z) : bool :=
  ((65 <=? c) && (c <=? 90)) || ((97 <=? c) && (c <=? 122)).
Definition isAlnum (c : Z) : bool := isLetter c || isDigit c.

Definition dot : Z := 46.
Definition at_sign : Z := 64.
Definition hyphen : Z := 45.

(** [[A-Z0-9_+-]] *)
Definition isLocalLast (c : Z) : bool :=
  isAlnum c || (c =? 95) || (c =? 43) || (c =? hyphen).

(** [[A-Z0-9_'+\-\.]] *)
Definition isLocalChar (c : Z) : bool :=
  isLocalLast c || (c =? 39) || (c =? dot).

Fixpoint hasDoubleDot (s : jsstring) : bool :=
  match s with
  | a :: ((b :: _) as t) => ((a =? dot) && (b =? dot)) || hasDoubleDot t
  | _ => false
  end.

(** The text before the first [sep] and, when there is one, the text after
    it. *)
Fixpoint splitFirst (sep : Z) (s : jsstring) : jsstring * option jsstring :=
  match s with
  | [] => ([], None)
  | c :: t =>
      if c =? sep then ([], Some t)
      else let (a, b) := splitFirst sep t in (c :: a, b)
  end.

(** The pieces of [s] between the occurrences of [sep]. *)
Fixpoint splitOn (sep : Z) (s : jsstring) : list jsstring :=
  match s with
  | [] => [[]]
  | c :: t =>
      match splitOn sep t with
      | [] => [[c]]
      | p :: ps => if c =? sep then [] :: p :: ps else (c :: p) :: ps
      end
  end.

(** The local part: [[A-Z0-9_'+\-\.]{0,}[A-Z0-9_+-]] *)
Definition isLocalPart (s : jsstring) : bool :=
  match rev s with
  | [] => false
  | l :: _ => isLocalLast l && forallb isLocalChar s
  end.

(** A label: [[A-Z0-9][A-Z0-9\-]{0,}] *)
Definition isLabel (s : jsstring) : bool :=
  match s with
  | [] => false
  | c :: t => isAlnum c && forallb (fun x => isAlnum x || (x =? hyphen)) t
  end.

(** The top-level name: [[A-Z]{2,}] *)
Definition isTopLevel (s : jsstring) : bool :=
  (2 <=? List.length s)%nat && forallb isLetter s.

(** The domain: one or more labels, each followed by a dot, then the
    top-level name. *)
Definition isDomain (s : jsstring) : bool :=
  match rev (splitOn dot s) with
  | tld :: l :: ls => isTopLevel tld && forallb isLabel (l :: ls)
  | _ => false
  end.

Definition emailRegex (s : jsstring) : bool :=
  match s with
  | [] => false
  | c :: _ =>
      negb (c =? dot) && negb (hasDoubleDot s)
      && match splitFirst at_sign s with
         | (l, Some d) => isLocalPart l && isDomain d
         | (_, None) => false
         end
  end.

End Zod.

(* ------------------------------------------------------------------ *)
(** ** The sign-in component *)

Module SignIn.

(** The shape [{ email, password }]: the schema, the values, the default
    values and the per-field errors of the form all have it. *)
Record Form (A : Type) := { email : A; password : A }.
Arguments email {A} _.
Arguments password {A} _.

Inductive FieldName := EmailField | PasswordField.

(** [z.infer<typeof formSchema>] *)
Definition FormValues := Form jsstring.

(** [formState.errors]: the message [<FormMessage />] shows under a field. *)
Definition FieldErrors := Form (option jsstring).

Definition noErrors : FieldErrors := {| email := None; password := None |}.

(** The login response: [data.user] and [user.currentWorkspace]. *)
Record User := { currentWorkspace : JsValue }.
Record LoginResponse := { user : option User }.

(** The value a rejected mutation hands to [onError]; [None] is a message
    that reads as [undefined]. *)
Record JsError := { message : option jsstring }.

(** Why a request was rejected.  The handler is not told. *)
Inductive RejectCause := NetworkFailure | CredentialFailure | ServerError.

Inductive ToastVariant := DefaultVariant | Destructive.

Record ToastProps := {
  title : jsstring;
  description : option jsstring;
  variant : ToastVariant
}.

(** What the component does to the world around it. *)
Inductive Effect :=
| Request (body : FormValues)      (* the login endpoint is called *)
| ConsoleLog (u : option User)     (* console.log(user) *)
| Navigate (to : jsstring)         (* navigate(to) *)
| Toast (props : ToastProps)       (* toast(props) *)
| Uncaught (e : Exn).              (* a handler ended in an exception *)

(** The state the hooks of the component hold: the form and the mutation
    as they are now.  What a handler sees of it is what the render that
    created the handler read. *)
Record State := {
  searchParams : list (jsstring * jsstring);  (* useSearchParams *)
  fields : FormValues;                        (* useForm: field values *)
  errors : FieldErrors;                       (* useForm: formState.errors *)
  isPending : bool;                           (* useMutation *)
  inFlight : nat;               (* requests sent and not yet settled *)
  trace : list Effect                         (* effects, oldest first *)
}.

Definition setFields (v : FormValues) (st : State) : State :=
  {| searchParams := searchParams st; fields := v; errors := errors st;
     isPending := isPending st; inFlight := inFlight st;
     trace := trace st |}.

Definition setErrors (e : FieldErrors) (st : State) : State :=
  {| searchParams := searchParams st; fields := fields st; errors := e;
     isPending := isPending st; inFlight := inFlight st;
     trace := trace st |}.

Definition emit (es : list Effect) (st : State) : State :=
  {| searchParams := searchParams st; fields := fields st;
     errors := errors st; isPending := isPending st;
     inFlight := inFlight st; trace := trace st ++ es |}.

(** [console.log(value)] *)
Definition consoleLog (value : option User) (st : State) : State :=
  emit [ConsoleLog value] st.

(** [navigate(to)] of the router. *)
Definition navigate (to : jsstring) (st : State) : State :=
  emit [Navigate to] st.

(** Modelled from the spec: [toast] of [@/hooks/use-toast] is not part of
    the sources at hand; the spec has it show what it is given as a
    transient, dismissible notification. *)
Definition toast (props : ToastProps) (st : State) : State :=
  emit [Toast props] st.

(** An exception that leaves a handler: nothing after it runs. *)
Definition uncaught (e : Exn) (st : State) : State :=
  emit [Uncaught e] st.

(** [const returnUrl = searchParams.get("returnUrl")] *)
Definition returnUrl (st : State) : option jsstring :=
  get (searchParams st) (lit "returnUrl").

Definition formSchema : Form Zod.ZodString := {|
  email :=
    Zod.min 1 (lit "Workspace name is required")
      (Zod.email (lit "Invalid email address") (Zod.trim Zod.string));
  password :=
    Zod.min 1 (lit "Password is required") (Zod.trim Zod.string)
|}.

Definition defaultValues : FormValues := {| email := []; password := [] |}.

(** Modelled from the spec: [loginMutationFn] of [@/lib/api] is not part of
    the sources at hand; the spec gives the body of the login request as
    [{ email, password }], taken from the values it is called with. *)
Definition loginMutationFn (data : FormValues) : FormValues :=
  {| email := email data; password := password data |}.

(** [mutate(variables, ...)]: the request goes out and the mutation is
    pending until it settles. *)
Definition mutate (variables : FormValues) (st : State) : State :=
  {| searchParams := searchParams st; fields := fields st;
     errors := errors st; isPending := true;
     inFlight := S (inFlight st);
     trace := trace st ++ [Request (loginMutationFn variables)] |}.

(** The mutation leaves the pending status, before its callbacks run. *)
Definition settle (st : State) : State :=
  {| searchParams := searchParams st; fields := fields st;
     errors := errors st; isPending := false;
     inFlight := pred (inFlight st); trace := trace st |}.

(** [returnUrl ? decodeURIComponent(returnUrl) : null] *)
Definition decodedUrl (returnUrl : option jsstring)
  : Outcome (option jsstring) :=
  match returnUrl with
  | Some r =>
      if truthy r then
        match decodeURIComponent r with
        | Some d => Ok (Some d)
        | None => Throw URIError
        end
      else Ok None
  | None => Ok None
  end.

(** [`/workspace/${user.currentWorkspace}`]; reading a property of an
    undefined [user] is a TypeError. *)
Definition workspaceRoute (u : option User) : Outcome jsstring :=
  match u with
  | Some u' => Ok (lit "/workspace/" ++ ToString (currentWorkspace u'))
  | None => Throw TypeError
  end.

(** The argument of [navigate]: [decodedUrl || `/workspace/...`].  The
    right operand is evaluated only when the left one is falsy. *)
Definition navigationTarget (returnUrl : option jsstring)
  (u : option User) : Outcome jsstring :=
  d <- decodedUrl returnUrl ;;
  match d with
  | Some url => if truthy url then Ok url else workspaceRoute u
  | None => workspaceRoute u
  end.

Definition onSuccess (data : LoginResponse) (st : State) : State :=
  let u := user data in
  let logged := consoleLog u st in
  match navigationTarget (returnUrl st) u with
  | Ok to => navigate to logged
  | Throw e => uncaught e logged
  end.

(** [error?.message] *)
Definition errorMessage (error : option JsError) : option jsstring :=
  match error with
  | Some e => message e
  | None => None
  end.

Definition onError (error : option JsError) (st : State) : State :=
  toast {| title := lit "Error";
           description := errorMessage error;
           variant := Destructive |} st.

(** [onSubmit] closes over [isPending], a constant of the render that
    created it: the guard tests that constant, not the mutation as it is
    when the handler runs. *)
Definition onSubmit (isPending : bool) (values : FormValues) (st : State)
  : State :=
  if isPending then st else mutate values st.

(** The form library: a keystroke writes the field.  (After a first submit
    the library also validates the changed field again; the errors after a
    keystroke are not followed here.) *)
Definition setValue (f : FieldName) (v : jsstring) (st : State) : State :=
  match f with
  | EmailField =>
      setFields {| email := v; password := password (fields st) |} st
  | PasswordField =>
      setFields {| email := email (fields st); password := v |} st
  end.

(** The message shown for a field is that of its first issue. *)
Definition firstIssue (r : Zod.ParseResult) : option jsstring :=
  match r with
  | Zod.Valid _ => None
  | Zod.Invalid issues => hd_error issues
  end.

Inductive Event :=
| Input (f : FieldName) (v : jsstring)
| Submit
| Resolved (data : LoginResponse)
| Rejected (cause : RejectCause) (error : option JsError).

Section Component.

Variable emailRegex : jsstring -> bool.

(** [zodResolver(formSchema)]: the parsed values when every field is
    valid, the per-field errors otherwise. *)
Definition resolver (values : FormValues) : FormValues + FieldErrors :=
  match Zod.safeParse emailRegex (email formSchema) (email values),
        Zod.safeParse emailRegex (password formSchema) (password values)
  with
  | Zod.Valid e, Zod.Valid p => inl {| email := e; password := p |}
  | re, rp => inr {| email := firstIssue re; password := firstIssue rp |}
  end.

(** [form.handleSubmit(onValid)]: the handler runs, on the resolver's
    values, only when the resolver found no error. *)
Definition handleSubmit (onValid : FormValues -> State -> State)
  (st : State) : State :=
  match resolver (fields st) with
  | inl values => onValid values (setErrors noErrors st)
  | inr errs => setErrors errs st
  end.

(** One event on a page that has rendered [st]: the handlers are those of
    that render, so [onSubmit] closes over [isPending st].  (The page
    between two renders is [Page], below.)  An exception that leaves the
    success callback is left at that here. *)
Definition step (st : State) (ev : Event) : State :=
  match ev with
  | Input f v => setValue f v st
  | Submit => handleSubmit (onSubmit (isPending st)) st
  | Resolved data =>
      match inFlight st with
      | O => st
      | S _ => onSuccess data (settle st)
      end
  | Rejected _ error =>
      match inFlight st with
      | O => st
      | S _ => onError error (settle st)
      end
  end.

Definition run (st : State) (evs : list Event) : State :=
  fold_left step evs st.

Definition initial (params : list (jsstring * jsstring)) : State :=
  {| searchParams := params; fields := defaultValues; errors := noErrors;
     isPending := false; inFlight := 0; trace := [] |}.

(** The states the page can be in, for the query string [params]. *)
Inductive reachable (params : list (jsstring * jsstring)) : State -> Prop :=
| reach_initial : reachable params (initial params)
| reach_step st ev :
    reachable params st -> reachable params (step st ev).

End Component.

(** *** The page between renders *)

(** The page as the user has it: the handlers of the last render, which
    read [isPending] at that render, over the state as it is now. *)
Record Page := {
  shown : bool;    (* isPending, as the last render read it *)
  store : State    (* the form and the mutation now *)
}.

Inductive Action :=
| Do (ev : Event)   (* an event reaches the handlers of the last render *)
| Render            (* the component renders again *)
| Superseded.       (* a request that a later mutate call replaced settles *)

Definition withStore (st : State) (pg : Page) : Page :=
  {| shown := shown pg; store := st |}.

(** A request the mutation no longer follows settles: no callback runs. *)
Definition forget (st : State) : State :=
  {| searchParams := searchParams st; fields := fields st;
     errors := errors st; isPending := isPending st;
     inFlight := pred (inFlight st); trace := trace st |}.

(** The requests in flight that a later [mutate] call has replaced: all
    but the one the mutation follows. *)
Definition superseded (st : State) : nat :=
  (inFlight st - (if isPending st then 1 else 0))%nat.

Section BetweenRenders.

Variable emailRegex : jsstring -> bool.

(** What the mutation library does with an exception that leaves the
    success callback.  [None]: nothing more.  [Some error]: it takes the
    mutation as failed and calls the error callback of the same [mutate]
    call with [error].  Which of the two depends on the release of the
    library. *)
Variable onThrow : Exn -> option (option JsError).

(** The toast that follows an exception of the success callback, when the
    library hands the exception to [onError]. *)
Definition thrownToast (e : Exn) : list Effect :=
  match onThrow e with
  | Some error => [Toast {| title := lit "Error";
                            description := errorMessage error;
                            variant := Destructive |}]
  | None => []
  end.

(** The mutation succeeds: it leaves the pending status and the success
    callback runs; an exception of the callback goes to [onThrow]. *)
Definition succeed (data : LoginResponse) (st : State) : State :=
  let done := onSuccess data (settle st) in
  match navigationTarget (returnUrl st) (user data) with
  | Ok _ => done
  | Throw e =>
      match onThrow e with
      | Some error => onError error done
      | None => done
      end
  end.

(** One action on the page.  A submit runs the [onSubmit] of the last
    render, whatever the mutation has become since; the callbacks of
    [mutate] run for the request the mutation follows, the latest one. *)
Definition act (pg : Page) (a : Action) : Page :=
  match a with
  | Do (Input f v) => withStore (setValue f v (store pg)) pg
  | Do Submit =>
      withStore (handleSubmit emailRegex (onSubmit (shown pg)) (store pg)) pg
  | Do (Resolved data) =>
      if isPending (store pg)
      then withStore (succeed data (store pg)) pg
      else pg
  | Do (Rejected _ error) =>
      if isPending (store pg)
      then withStore (onError error (settle (store pg))) pg
      else pg
  | Render => {| shown := isPending (store pg); store := store pg |}
  | Superseded =>
      match superseded (store pg) with
      | O => pg
      | S _ => withStore (forget (store pg)) pg
      end
  end.

Definition play (pg : Page) (actions : list Action) : Page :=
  fold_left act actions pg.

(** The page after its first render. *)
Definition firstRender (params : list (jsstring * jsstring)) : Page :=
  {| shown := false; store := initial params |}.

(** The pages reached when every submit is handled by a page that has
    rendered since the mutation last changed: a render comes right before
    each submit, everything else comes in any order. *)
Inductive renderedSubmits (params : list (jsstring * jsstring))
  : Page -> Prop :=
| rendered_first : renderedSubmits params (firstRender params)
| rendered_act pg a :
    a <> Do Submit ->
    renderedSubmits params pg -> renderedSubmits params (act pg a)
| rendered_submit pg :
    renderedSubmits params pg ->
    renderedSubmits params (act (act pg Render) (Do Submit)).

End BetweenRenders.

(** *** Predicates the properties of the component are stated with *)

(** The values of a form record with both fields trimmed. *)
Definition trimmed (v : FormValues) : FormValues :=
  {| email := trim (email v); password := trim (password v) |}.

(** The count of requests in flight agrees with the pending flag. *)
Definition inFlight_matches_pending (st : State) : Prop :=
  inFlight st = if isPending st then 1%nat else 0%nat.

(** A request whose email and password have no white space at either
    end; every other effect qualifies. *)
Definition noEdgeSpace (e : Effect) : Prop :=
  match e with
  | Request body =>
      startsWithSpace (email body) = false
      /\ endsWithSpace (email body) = false
      /\ startsWithSpace (password body) = false
      /\ endsWithSpace (password body) = false
  | _ => True
  end.

(** *** The order of the effects *)

(** Where the page stands in a login attempt: no request out, a request
    out, the success handler under way (it has logged the user and has yet
    to navigate or fail), or the success handler ended in an exception. *)
Inductive Phase := Idle | Waiting | Logged | Thrown.

(** The effect a phase allows next, and the phase it leads to. *)
Definition next (p : Phase) (e : Effect) : option Phase :=
  match p, e with
  | Idle, Request _ => Some Waiting
  | Waiting, ConsoleLog _ => Some Logged
  | Waiting, Toast _ => Some Idle
  | Logged, Navigate _ => Some Idle
  | Logged, Uncaught _ => Some Thrown
  | Thrown, Toast _ => Some Idle
  | Thrown, Request _ => Some Waiting
  | _, _ => None
  end.

(** The phase a trace ends in, [None] when the trace is out of order. *)
Definition follow (tr : list Effect) (p : option Phase) : option Phase :=
  fold_left (fun acc e =>
               match acc with
               | Some q => next q e
               | None => None
               end) tr p.


End SignIn.

(* ------------------------------------------------------------------ *)
(** ** Inputs the examples run on *)

Module Scenario.

Import SignIn.

Definition alice : FormValues :=
  {| email := lit "alice@example.com"; password := lit "secret" |}.

(** The same credentials, typed with white space around them. *)
Definition padded : FormValues :=
  {| email := lit " alice@example.com "; password := lit "secret " |}.

Definition typing (v : FormValues) : list Event :=
  [Input EmailField (email v); Input PasswordField (password v)].

Definition w1 : LoginResponse :=
  {| user := Some {| currentWorkspace := JsString (lit "w1") |} |}.

Definition noWorkspace : LoginResponse :=
  {| user := Some {| currentWorkspace := JsUndefined |} |}.

Definition invalidCredentials : option JsError :=
  Some {| message := Some (lit "Invalid credentials") |}.

Definition withReturnUrl (v : jsstring) : list (jsstring * jsstring) :=
  [(lit "returnUrl", v)].

(** The page after [v] was typed into the form. *)
Definition filled (params : list (jsstring * jsstring)) (v : FormValues)
  : State :=
  run Zod.emailRegex (initial params) (typing v).

(** The page after [alice] was typed and submitted: a request is out. *)
Definition pending (params : list (jsstring * jsstring)) : State :=
  step Zod.emailRegex (filled params alice) Submit.


(** The page after [alice] was typed, rendered. *)
Definition filledPage (params : list (jsstring * jsstring)) : Page :=
  {| shown := false; store := filled params alice |}.

(** The library leaves an exception of the success callback at that. *)
Definition leaves : Exn -> option (option JsError) := fun _ => None.

(** The library hands an exception of the success callback to the error
    callback, as an error with a message of the engine's. *)
Definition handsOver : Exn -> option (option JsError) :=
  fun _ => Some (Some {| message := Some (lit "URI malformed") |}).

(** A session in which the page renders before each submit: a first
    attempt is rejected, the second one succeeds. *)
Definition session : list Action :=
  [Render; Do Submit;
   Do (Rejected CredentialFailure invalidCredentials);
   Do (Input PasswordField (lit " hunter2 "));
   Render; Do Submit;
   Do (Resolved w1)].

End Scenario.

(* ------------------------------------------------------------------ *)
(** ** Facts about the built-ins *)

(** Spaces, a tab and a no-break space go; the space inside stays. *)
Example trim_ex : trim (lit "  a b" ++ [9; 160]) = lit "a b".
Proof. reflexivity. Qed.

Example trim_blank : trim (lit "   ") = [].
Proof. reflexivity. Qed.

Example emailRegex_accepts :
  map Zod.emailRegex
    [lit "alice@example.com"; lit "a.b'c+d@x-1.y.COM"; lit "A_1@b.co"]
  = [true; true; true].
Proof. reflexivity. Qed.

Example emailRegex_rejects :
  map Zod.emailRegex
    [[]; lit " alice@example.com"; lit "alice@example.com ";
     lit "alice.example.com"; lit ".a@x.com"; lit "a..b@x.com";
     lit "a.@x.com"; lit "a@x.c"; lit "a@x..com"; lit "a@-x.com";
     lit "a@x.c0m"; lit "a@b@x.com"; lit "a@com"; lit "a@x.com."]
  = repeat false 14.
Proof. reflexivity. Qed.

Example decode_projects :
  decodeURIComponent (lit "%2Fprojects%2F5") = Some (lit "/projects/5").
Proof. reflexivity. Qed.

Example decode_plain :
  decodeURIComponent (lit "/projects/5") = Some (lit "/projects/5").
Proof. reflexivity. Qed.

Example decode_euro :
  decodeURIComponent (lit "a%E2%82%ACb") = Some [97; 8364; 98].
Proof. reflexivity. Qed.

Example decode_astral :
  decodeURIComponent (lit "%F0%9F%98%80") = Some [55357; 56832].
Proof. reflexivity. Qed.

Example decode_lone_percent : decodeURIComponent (lit "%") = None.
Proof. reflexivity. Qed.

Example decode_truncated : decodeURIComponent (lit "100%2") = None.
Proof. reflexivity. Qed.

Example decode_overlong : decodeURIComponent (lit "%C0%80") = None.
Proof. reflexivity. Qed.

Example decode_surrogate : decodeURIComponent (lit "%ED%A0%80") = None.
Proof. reflexivity. Qed.

Example decode_nul : decodeURIComponent (lit "%00") = Some [0].
Proof. reflexivity. Qed.

Lemma trimStart_no_leading_space s : startsWithSpace (trimStart s) = false.
Proof.
  induction s as [|c t IH]; simpl; [reflexivity|].
  destruct (isWhiteSpace c) eqn:E; [exact IH|].
  simpl. exact E.
Qed.

Lemma trimStart_suffix s : exists p, s = p ++ trimStart s.
Proof.
  induction s as [|c t [p IH]]; simpl.
  - exists []. reflexivity.
  - destruct (isWhiteSpace c).
    + exists (c :: p). simpl. f_equal. exact IH.
    + exists []. reflexivity.
Qed.

Lemma trimEnd_prefix s : exists q, s = trimEnd s ++ q.
Proof.
  unfold trimEnd.
  destruct (trimStart_suffix (rev s)) as [p Hp].
  exists (rev p).
  rewrite <- rev_app_distr, <- Hp, rev_involutive. reflexivity.
Qed.

Lemma trimEnd_no_trailing_space s : endsWithSpace (trimEnd s) = false.
Proof.
  unfold endsWithSpace, trimEnd. rewrite rev_involutive.
  apply trimStart_no_leading_space.
Qed.

Lemma trimEnd_keeps_head s :
  startsWithSpace s = false -> startsWithSpace (trimEnd s) = false.
Proof.
  intros H. destruct (trimEnd_prefix s) as [q Hq].
  destruct (trimEnd s) as [|c t]; [reflexivity|].
  rewrite Hq in H. exact H.
Qed.

(** What [trim] returns neither begins nor ends with white space. *)
Lemma trim_no_edge_space s :
  startsWithSpace (trim s) = false /\ endsWithSpace (trim s) = false.
Proof.
  unfold trim. split.
  - apply trimEnd_keeps_head, trimStart_no_leading_space.
  - apply trimEnd_no_trailing_space.
Qed.

Lemma trimStart_id s : startsWithSpace s = false -> trimStart s = s.
Proof.
  destruct s as [|c t]; simpl; [reflexivity|].
  intros ->. reflexivity.
Qed.

Lemma trim_idempotent s : trim (trim s) = trim s.
Proof.
  destruct (trim_no_edge_space s) as [Hs He].
  unfold trim at 1. rewrite (trimStart_id _ Hs).
  unfold trimEnd. unfold endsWithSpace in He.
  rewrite (trimStart_id _ He). apply rev_involutive.
Qed.

Lemma UTF16EncodeCodePoint_nonempty v : UTF16EncodeCodePoint v <> [].
Proof.
  unfold UTF16EncodeCodePoint. destruct (v <? 65536); discriminate.
Qed.

Lemma decodeEscape_nonempty t units used :
  decodeEscape t = Some (units, used) -> units <> [].
Proof.
  unfold decodeEscape.
  destruct (hexOctet t) as [[b r]|]; [|discriminate].
  destruct (leadingOnes b) as [|[|m]].
  - intros H; inversion H. discriminate.
  - discriminate.
  - destruct (2 <? m)%nat; [discriminate|].
    destruct (continuation (S m) r) as [bs|]; [|discriminate].
    destruct (utf8CodePoint (b :: bs)) as [v|]; [|discriminate].
    intros H; inversion H. apply UTF16EncodeCodePoint_nonempty.
Qed.

(** Decoding never turns a string that has characters into the empty
    string: every character and every escape sequence leaves at least one
    code unit. *)
Lemma decodeURIComponent_nonempty s d :
  s <> [] -> decodeURIComponent s = Some d -> d <> [].
Proof.
  unfold decodeURIComponent.
  destruct s as [|c t]; [congruence|]. intros _. simpl.
  destruct (c =? percent).
  - destruct (decodeEscape t) as [[units used]|] eqn:E; [|discriminate].
    destruct (decodeFrom used t) as [r|]; [|discriminate].
    intros H; inversion H. apply decodeEscape_nonempty in E.
    destruct units; [congruence|discriminate].
  - destruct (decodeFrom 0 t); [|discriminate].
    intros H; inversion H. discriminate.
Qed.

(** A string without ['%'] decodes to itself. *)
Lemma decodeURIComponent_plain s :
  forallb (fun c => negb (c =? percent)) s = true ->
  decodeURIComponent s = Some s.
Proof.
  unfold decodeURIComponent.
  induction s as [|c t IH]; simpl; [reflexivity|].
  intros H. apply andb_prop in H as [Hc Ht].
  destruct (c =? percent); [discriminate|].
  rewrite (IH Ht). reflexivity.
Qed.


(* ------------------------------------------------------------------ *)
(** ** The sign-in component: validation *)

Import SignIn.

Section Validation.

Variable emailRegex : jsstring -> bool.

Local Abbreviation resolver := (SignIn.resolver emailRegex).
Local Abbreviation step := (SignIn.step emailRegex).

(** The email schema trims, then raises its issues on the trimmed text. *)
Lemma parse_email v :
  Zod.runChecks emailRegex (email formSchema) v =
  (trim v,
   (if emailRegex (trim v) then [] else [lit "Invalid email address"])
   ++ (if (List.length (trim v) <? 1)%nat
       then [lit "Workspace name is required"] else [])).
Proof.
  cbn -[lit trim Nat.ltb]. rewrite app_nil_r. reflexivity.
Qed.

Lemma parse_password v :
  Zod.runChecks emailRegex (password formSchema) v =
  (trim v,
   if (List.length (trim v) <? 1)%nat
   then [lit "Password is required"] else []).
Proof.
  cbn -[lit trim Nat.ltb]. rewrite app_nil_r. reflexivity.
Qed.

Lemma short_iff_empty (s : jsstring) :
  (List.length s <? 1)%nat = match s with [] => true | _ => false end.
Proof. destruct s; reflexivity. Qed.

(** The resolver accepts exactly the records whose trimmed email matches
    the pattern and is not empty and whose trimmed password is not empty;
    the values it returns are the trimmed ones. *)
Lemma resolver_valid v :
  emailRegex (trim (email v)) = true ->
  trim (email v) <> [] ->
  trim (password v) <> [] ->
  resolver v = inl (trimmed v).
Proof.
  intros Hre He Hp. unfold SignIn.resolver, Zod.safeParse.
  rewrite parse_email, parse_password, !short_iff_empty, Hre.
  destruct (trim (email v)) eqn:E1; [congruence|].
  destruct (trim (password v)) eqn:E2; [congruence|].
  cbn -[lit]. unfold trimmed. rewrite E1, E2. reflexivity.
Qed.

Lemma resolver_inl v parsed :
  resolver v = inl parsed ->
  parsed = trimmed v
  /\ emailRegex (trim (email v)) = true
  /\ trim (email v) <> [] /\ trim (password v) <> [].
Proof.
  unfold SignIn.resolver, Zod.safeParse.
  rewrite parse_email, parse_password, !short_iff_empty.
  unfold trimmed.
  destruct (emailRegex (trim (email v)));
    destruct (trim (email v)); destruct (trim (password v));
    cbn -[lit]; intros H; inversion H; repeat split; discriminate.
Qed.

Lemma resolver_bad_email v :
  trim (email v) = [] \/ emailRegex (trim (email v)) = false ->
  exists errs m, resolver v = inr errs /\ email errs = Some m.
Proof.
  unfold SignIn.resolver, Zod.safeParse.
  rewrite parse_email, parse_password, !short_iff_empty.
  intros [H|H]; rewrite H.
  - destruct (emailRegex []); destruct (trim (password v));
      cbn -[lit]; repeat eexists.
  - destruct (trim (email v)); destruct (trim (password v));
      cbn -[lit]; repeat eexists.
Qed.

Lemma resolver_bad_password v :
  trim (password v) = [] ->
  exists errs,
    resolver v = inr errs
    /\ password errs = Some (lit "Password is required").
Proof.
  unfold SignIn.resolver, Zod.safeParse.
  rewrite parse_email, parse_password, !short_iff_empty.
  intros ->.
  destruct (emailRegex (trim (email v))); destruct (trim (email v));
    cbn -[lit]; eauto.
Qed.

(** A submission either changes the errors only, or sends one request with
    the trimmed values. *)
Lemma submit_cases st :
  (exists errs, step st Submit = setErrors errs st)
  \/ (isPending st = false
      /\ resolver (fields st) = inl (trimmed (fields st))
      /\ step st Submit = mutate (trimmed (fields st)) (setErrors noErrors st)).
Proof.
  unfold SignIn.step, SignIn.handleSubmit.
  destruct (resolver (fields st)) as [parsed|errs] eqn:R.
  - apply resolver_inl in R as H. destruct H as [-> _].
    unfold onSubmit. cbn [isPending setErrors].
    destruct (isPending st) eqn:P.
    + left. eexists. reflexivity.
    + right. auto.
  - left. eexists. reflexivity.
Qed.

End Validation.

(* ------------------------------------------------------------------ *)
(** ** The sign-in component: where a successful login goes *)

(** The success handler adds to the trace and touches nothing else. *)
Lemma onSuccess_emit data st :
  onSuccess data st
  = emit (ConsoleLog (user data)
          :: match navigationTarget (returnUrl st) (user data) with
             | Ok to => [Navigate to]
             | Throw e => [Uncaught e]
             end) st.
Proof.
  unfold onSuccess.
  destruct (navigationTarget (returnUrl st) (user data));
    unfold navigate, uncaught, consoleLog, emit; cbn;
    rewrite <- app_assoc; reflexivity.
Qed.

Lemma navigationTarget_absent u :
  navigationTarget None u = workspaceRoute u.
Proof. reflexivity. Qed.

Lemma navigationTarget_empty u :
  navigationTarget (Some []) u = workspaceRoute u.
Proof. reflexivity. Qed.

Lemma navigationTarget_decoded r d u :
  r <> [] -> decodeURIComponent r = Some d ->
  navigationTarget (Some r) u = Ok d.
Proof.
  intros Hr Hd. pose proof (decodeURIComponent_nonempty _ _ Hr Hd) as Hne.
  unfold navigationTarget, decodedUrl.
  destruct r as [|c t]; [congruence|]. cbn [truthy]. rewrite Hd.
  cbn [bind]. destruct d; [congruence|reflexivity].
Qed.

(** A return address that is not well-formed percent-encoding makes the
    handler end in a URIError: nothing is navigated to. *)
Lemma navigationTarget_malformed r u :
  r <> [] -> decodeURIComponent r = None ->
  navigationTarget (Some r) u = Throw URIError.
Proof.
  intros Hr Hd. unfold navigationTarget, decodedUrl.
  destruct r; [congruence|]. cbn [truthy]. rewrite Hd. reflexivity.
Qed.

(** With no usable return address and no [user] in the response, reading
    [user.currentWorkspace] is a TypeError. *)
Lemma onSuccess_without_user st :
  returnUrl st = None ->
  trace (onSuccess {| user := None |} st)
  = trace st ++ [ConsoleLog None; Uncaught TypeError].
Proof.
  intros H. unfold onSuccess. rewrite H. cbn. rewrite <- app_assoc.
  reflexivity.
Qed.

(** C1. On a successful login whose user carries the current-workspace
    identifier [w], and with no [returnUrl] query parameter, the handler
    navigates to exactly ["/workspace/"] followed by [w]. *)
Theorem login_navigates_to_workspace st data u w :
  returnUrl st = None ->
  user data = Some u ->
  currentWorkspace u = JsString w ->
  trace (onSuccess data st)
  = trace st ++ [ConsoleLog (Some u); Navigate (lit "/workspace/" ++ w)].
Proof.
  intros Hr Hu Hw. unfold onSuccess.
  rewrite Hr, Hu, navigationTarget_absent.
  unfold workspaceRoute. rewrite Hw. cbn [navigate consoleLog emit trace].
  rewrite <- app_assoc. reflexivity.
Qed.

(** C2, as the code has it.  On a successful login with a non-empty
    [returnUrl] query parameter that is well-formed percent-encoding, of
    percent-decoding [d], the handler navigates to [d]; the response's
    user, and with it the current-workspace identifier, plays no part in
    the target (the response is arbitrary here, its user may even be
    missing). *)
Theorem login_navigates_to_return_url st data r d :
  returnUrl st = Some r ->
  r <> [] ->
  decodeURIComponent r = Some d ->
  trace (onSuccess data st)
  = trace st ++ [ConsoleLog (user data); Navigate d].
Proof.
  intros Hr Hne Hd. unfold onSuccess.
  rewrite Hr, (navigationTarget_decoded r d _ Hne Hd).
  cbn [navigate consoleLog emit trace]. rewrite <- app_assoc. reflexivity.
Qed.

(** C9. A [returnUrl] query parameter that is present but empty is treated
    as absent: the target is computed as if there were none, and a
    successful login goes to ["/workspace/"] followed by the user's
    current-workspace identifier. *)
Theorem empty_return_url_is_absent st data u :
  returnUrl st = Some [] ->
  user data = Some u ->
  navigationTarget (returnUrl st) (user data)
  = navigationTarget None (user data)
  /\ trace (onSuccess data st)
     = trace st ++ [ConsoleLog (Some u);
                    Navigate (lit "/workspace/"
                              ++ ToString (currentWorkspace u))].
Proof.
  intros Hr Hu. unfold onSuccess. rewrite Hr, Hu.
  split; [reflexivity|]. rewrite navigationTarget_empty.
  cbn [workspaceRoute navigate consoleLog emit trace].
  rewrite <- app_assoc. reflexivity.
Qed.

(** C10. The success handler does not check the user it is given: when
    there is no [returnUrl] and the user has no [currentWorkspace] field,
    it still navigates, to ["/workspace/undefined"]. *)
Theorem missing_workspace_navigates_to_undefined st data u :
  returnUrl st = None ->
  user data = Some u ->
  currentWorkspace u = JsUndefined ->
  trace (onSuccess data st)
  = trace st ++ [ConsoleLog (Some u); Navigate (lit "/workspace/undefined")].
Proof.
  intros Hr Hu Hw. unfold onSuccess.
  rewrite Hr, Hu, navigationTarget_absent.
  unfold workspaceRoute. rewrite Hw. cbn [navigate consoleLog emit trace].
  rewrite <- app_assoc. reflexivity.
Qed.

(* ------------------------------------------------------------------ *)
(** ** The sign-in component: submitting and settling *)

Section Submission.

Variable emailRegex : jsstring -> bool.

Local Abbreviation resolver := (SignIn.resolver emailRegex).
Local Abbreviation step := (SignIn.step emailRegex).
Local Abbreviation run := (SignIn.run emailRegex).
Local Abbreviation reachable := (SignIn.reachable emailRegex).


(** The number of requests in flight is one while the mutation is pending
    and zero otherwise. *)
Lemma inFlight_invariant params st :
  reachable params st -> inFlight_matches_pending st.
Proof.
  unfold inFlight_matches_pending.
  induction 1 as [|st ev Hreach IH]; [reflexivity|].
  destruct ev as [f v| |data|cause error].
  - destruct f; exact IH.
  - destruct (submit_cases emailRegex st) as [[errs ->]|(P & _ & ->)].
    + exact IH.
    + rewrite P in IH. cbn. rewrite IH. reflexivity.
  - cbn. destruct (inFlight st) as [|n] eqn:E; [rewrite E; exact IH|].
    rewrite onSuccess_emit. cbn. rewrite E in *.
    destruct (isPending st); now inversion IH.
  - cbn. destruct (inFlight st) as [|n] eqn:E; [rewrite E; exact IH|].
    cbn. rewrite E in *. destruct (isPending st); now inversion IH.
Qed.

(** Submitting twice in a row: the second submit leaves the state as the
    first one made it. *)
Lemma second_submit_is_noop st :
  isPending st = false ->
  resolver (fields st) = inl (trimmed (fields st)) ->
  step (step st Submit) Submit = step st Submit.
Proof.
  intros P R.
  assert (E : step st Submit
              = mutate (trimmed (fields st)) (setErrors noErrors st)).
  { cbn. unfold handleSubmit. rewrite R. unfold onSubmit.
    cbn [isPending setErrors]. rewrite P. reflexivity. }
  rewrite E. cbn [SignIn.step]. unfold handleSubmit.
  cbn [fields mutate setErrors]. rewrite R. reflexivity.
Qed.

(** C4, as the code has it.  When the email, after trimming white space, is
    empty or does not match the address pattern, or the password is empty
    after trimming, the submit event sends no request and leaves
    everything but the errors as it was; the failing field carries an
    error message. *)
Theorem invalid_form_blocks_submission st :
  trim (email (fields st)) = []
  \/ emailRegex (trim (email (fields st))) = false
  \/ trim (password (fields st)) = [] ->
  trace (step st Submit) = trace st
  /\ inFlight (step st Submit) = inFlight st
  /\ isPending (step st Submit) = isPending st
  /\ fields (step st Submit) = fields st
  /\ (trim (email (fields st)) = []
      \/ emailRegex (trim (email (fields st))) = false ->
      exists m, email (errors (step st Submit)) = Some m)
  /\ (trim (password (fields st)) = [] ->
      password (errors (step st Submit)) = Some (lit "Password is required")).
Proof.
  intros H.
  assert (Hinr : exists errs, resolver (fields st) = inr errs).
  { destruct H as [H|[H|H]].
    - destruct (resolver_bad_email emailRegex (fields st)) as (e & _ & R & _);
        eauto.
    - destruct (resolver_bad_email emailRegex (fields st)) as (e & _ & R & _);
        eauto.
    - destruct (resolver_bad_password emailRegex (fields st)) as (e & R & _);
        eauto. }
  destruct Hinr as [errs R]. cbn. unfold handleSubmit. rewrite R.
  cbn [setErrors trace inFlight isPending fields errors].
  repeat split.
  - intros He.
    destruct (resolver_bad_email emailRegex (fields st) He) as (e & m & R' & Hm).
    rewrite R in R'. inversion R'. eauto.
  - intros Hp.
    destruct (resolver_bad_password emailRegex (fields st) Hp) as (e & R' & Hm).
    rewrite R in R'. inversion R'. exact Hm.
Qed.

(** C8. When the form is submitted with no request pending and the values
    pass validation, the one request sent carries the trimmed email and
    the trimmed password, and neither begins or ends with white space. *)
Theorem request_carries_trimmed_values st :
  isPending st = false ->
  emailRegex (trim (email (fields st))) = true ->
  trim (email (fields st)) <> [] ->
  trim (password (fields st)) <> [] ->
  trace (step st Submit)
  = trace st ++ [Request {| email := trim (email (fields st));
                            password := trim (password (fields st)) |}]
  /\ startsWithSpace (trim (email (fields st))) = false
  /\ endsWithSpace (trim (email (fields st))) = false
  /\ startsWithSpace (trim (password (fields st))) = false
  /\ endsWithSpace (trim (password (fields st))) = false.
Proof.
  intros P Hre He Hp.
  pose proof (resolver_valid emailRegex _ Hre He Hp) as R.
  split.
  - cbn. unfold handleSubmit. rewrite R. unfold onSubmit.
    cbn [isPending setErrors]. rewrite P. reflexivity.
  - destruct (trim_no_edge_space (email (fields st))).
    destruct (trim_no_edge_space (password (fields st))). auto.
Qed.

(** No request the page ever sends has white space at either end of its
    email or password. *)
Lemma requests_have_no_edge_space params st :
  reachable params st -> Forall noEdgeSpace (trace st).
Proof.
  induction 1 as [|st ev Hreach IH]; [constructor|].
  destruct ev as [f v| |data|cause error].
  - destruct f; exact IH.
  - destruct (submit_cases emailRegex st) as [[errs ->]|(_ & _ & ->)].
    + exact IH.
    + cbn. apply Forall_app. split; [exact IH|].
      constructor; [|constructor]. cbn.
      destruct (trim_no_edge_space (email (fields st))).
      destruct (trim_no_edge_space (password (fields st))). auto.
  - cbn. destruct (inFlight st); [exact IH|].
    rewrite onSuccess_emit. cbn. apply Forall_app. split; [exact IH|].
    constructor; [exact I|].
    destruct (navigationTarget _ _); repeat constructor.
  - cbn. destruct (inFlight st); [exact IH|].
    cbn. apply Forall_app. split; [exact IH|]. repeat constructor.
Qed.


(** C6. A rejection leaves the email and the password of the form as they
    were, and so does a submission followed by its rejection. *)
Theorem rejection_preserves_fields st cause error :
  fields (step st (Rejected cause error)) = fields st
  /\ fields (step (step st Submit) (Rejected cause error)) = fields st.
Proof.
  assert (Hrej : forall s, fields (step s (Rejected cause error)) = fields s).
  { intros s. cbn. destruct (inFlight s); reflexivity. }
  split; [apply Hrej|]. rewrite Hrej.
  destruct (submit_cases emailRegex st) as [[errs ->]|(_ & _ & ->)];
    reflexivity.
Qed.

(** C7, as the code has it.  When a submitted request is rejected, no
    field gets an error message: the form keeps its values and stays free
    of errors, and the failure is reported by a toast carrying the
    error's message. *)
Theorem rejection_sets_no_field_error st cause error body :
  trace (step st Submit) = trace st ++ [Request body] ->
  errors (step (step st Submit) (Rejected cause error)) = noErrors
  /\ fields (step (step st Submit) (Rejected cause error)) = fields st
  /\ trace (step (step st Submit) (Rejected cause error))
     = trace st ++ [Request body;
                    Toast {| title := lit "Error";
                             description := errorMessage error;
                             variant := Destructive |}].
Proof.
  intros H.
  destruct (submit_cases emailRegex st) as [[errs E]|(_ & _ & E)].
  - rewrite E in H. cbn in H.
    rewrite <- (app_nil_r (trace st)) in H at 1.
    apply app_inv_head in H. discriminate.
  - rewrite E in *. cbn in H. apply app_inv_head in H.
    cbn. rewrite <- app_assoc. cbn. inversion H. auto.
Qed.

End Submission.

(* ------------------------------------------------------------------ *)
(** ** The sign-in component: further properties of the code *)

Section Coverage.

Variable emailRegex : jsstring -> bool.

Local Abbreviation resolver := (SignIn.resolver emailRegex).
Local Abbreviation step := (SignIn.step emailRegex).
Local Abbreviation reachable := (SignIn.reachable emailRegex).

Lemma follow_app tr es p : follow (tr ++ es) p = follow es (follow tr p).
Proof. unfold follow. apply fold_left_app. Qed.



Lemma resolved_step st data n :
  inFlight st = S n ->
  step st (Resolved data) = onSuccess data (settle st).
Proof. intros H. cbn. rewrite H. reflexivity. Qed.

(** X1. Provided the pattern rejects the empty string, the messages the
    form shows after a submit depend on the fields alone: under the email,
    "Invalid email address" exactly when the trimmed email fails the
    pattern (the schema's other message, "Workspace name is required", is
    never the one shown); under the password, "Password is required"
    exactly when the trimmed password is empty. *)
Theorem errors_after_submit st :
  emailRegex [] = false ->
  errors (step st Submit)
  = {| email := if emailRegex (trim (email (fields st))) then None
                else Some (lit "Invalid email address");
       password := match trim (password (fields st)) with
                   | [] => Some (lit "Password is required")
                   | _ :: _ => None
                   end |}.
Proof.
  intros Hempty. cbn [SignIn.step].
  unfold handleSubmit, SignIn.resolver, Zod.safeParse.
  rewrite parse_email, parse_password, !short_iff_empty.
  destruct (trim (email (fields st))) as [|c e] eqn:Ee.
  - rewrite Hempty. destruct (trim (password (fields st))); reflexivity.
  - destruct (emailRegex (c :: e));
      destruct (trim (password (fields st))); cbn -[lit]; try reflexivity.
    unfold onSubmit. cbn [isPending setErrors].
    destruct (isPending st); reflexivity.
Qed.

(** X2. Validation gives back values it accepts unchanged: what the
    resolver returns for a record is itself a record the resolver accepts
    and returns as it is. *)
Theorem parsed_values_are_a_fixed_point v parsed :
  resolver v = inl parsed -> resolver parsed = inl parsed.
Proof.
  intros H. apply resolver_inl in H as (-> & Hre & He & Hp).
  assert (Hfix : trimmed (trimmed v) = trimmed v).
  { unfold trimmed. cbn [email password]. rewrite !trim_idempotent.
    reflexivity. }
  rewrite <- Hfix at 2. apply resolver_valid; unfold trimmed;
    cbn [email password]; rewrite trim_idempotent; assumption.
Qed.


(** X6. A [returnUrl] without a percent sign is navigated to as it is,
    whatever it is: the handler puts no other condition on it. *)
Theorem plain_return_url_is_kept st data r :
  returnUrl st = Some r ->
  r <> [] ->
  forallb (fun c => negb (c =? percent)) r = true ->
  trace (onSuccess data st)
  = trace st ++ [ConsoleLog (user data); Navigate r].
Proof.
  intros Hr Hne Hplain. rewrite onSuccess_emit, Hr.
  rewrite (navigationTarget_decoded r r _ Hne
             (decodeURIComponent_plain r Hplain)).
  reflexivity.
Qed.

(** X7. With no [returnUrl], or an empty one, a response that has no user
    makes the handler end in a TypeError after it logged [undefined]:
    nothing is navigated to. *)
Theorem missing_user_is_a_type_error st data :
  returnUrl st = None \/ returnUrl st = Some [] ->
  user data = None ->
  trace (onSuccess data st)
  = trace st ++ [ConsoleLog None; Uncaught TypeError].
Proof.
  intros Hr Hu. rewrite onSuccess_emit, Hu.
  destruct Hr as [-> | ->]; reflexivity.
Qed.




End Coverage.

(* ------------------------------------------------------------------ *)
(** ** The sign-in component: the page between renders *)

Section BetweenRendersFacts.

Variable emailRegex : jsstring -> bool.
Variable onThrow : Exn -> option (option JsError).

Local Abbreviation step := (SignIn.step emailRegex).
Local Abbreviation act := (SignIn.act emailRegex onThrow).
Local Abbreviation renderedSubmits :=
  (SignIn.renderedSubmits emailRegex onThrow).

(** A submit right after a render is a [step] of the state. *)
Lemma submit_after_render pg :
  store (act (act pg Render) (Do Submit)) = step (store pg) Submit.
Proof. reflexivity. Qed.

Lemma succeed_emit data st :
  succeed onThrow data st
  = emit (ConsoleLog (user data)
          :: match navigationTarget (returnUrl st) (user data) with
             | Ok to => [Navigate to]
             | Throw e => Uncaught e :: thrownToast onThrow e
             end) (settle st).
Proof.
  unfold succeed, thrownToast. rewrite onSuccess_emit.
  replace (returnUrl (settle st)) with (returnUrl st) by reflexivity.
  destruct (navigationTarget (returnUrl st) (user data)) as [to|e];
    [reflexivity|].
  destruct (onThrow e) as [error|]; [|reflexivity].
  unfold onError, toast, emit. cbn. rewrite <- app_assoc. reflexivity.
Qed.



(** X4. While the page renders before each submit it handles, its effects
    come in a fixed order: a request, then its one outcome (the log of the
    user followed by a navigation or by an exception, after which the
    library may raise the toast; or the toast of a rejection), then the
    next request.  The trace ends on an unanswered request exactly when
    the mutation is pending, and never inside the success handler. *)
Theorem effects_come_in_order params pg :
  renderedSubmits params pg ->
  exists ph,
    follow (trace (store pg)) (Some Idle) = Some ph
    /\ ph <> Logged
    /\ (ph = Waiting <-> isPending (store pg) = true).
Proof.
  induction 1 as [|pg a Hns Hr IH|pg Hr IH].
  - exists Idle. repeat split; discriminate.
  - destruct IH as (ph & Hf & Hl & Hw).
    destruct a as [[f v| |data|cause error]| |].
    + exists ph. destruct f; auto.
    + congruence.
    + cbn. destruct (isPending (store pg)) eqn:P; [|exists ph; rewrite P; auto].
      assert (ph = Waiting) as -> by (apply Hw; reflexivity).
      cbn [withStore store]. rewrite succeed_emit.
      cbn [emit trace settle isPending]. rewrite follow_app, Hf.
      destruct (navigationTarget _ _) as [to|e].
      * exists Idle. repeat split; discriminate.
      * unfold thrownToast. destruct (onThrow e).
        -- exists Idle. repeat split; discriminate.
        -- exists Thrown. repeat split; discriminate.
    + cbn. destruct (isPending (store pg)) eqn:P; [|exists ph; rewrite P; auto].
      assert (ph = Waiting) as -> by (apply Hw; reflexivity).
      cbn. rewrite follow_app, Hf. exists Idle.
      repeat split; discriminate.
    + exists ph. auto.
    + exists ph. cbn. destruct (superseded (store pg)); auto.
  - destruct IH as (ph & Hf & Hl & Hw). rewrite submit_after_render.
    destruct (submit_cases emailRegex (store pg)) as [[errs ->]|(P & _ & ->)].
    + exists ph. auto.
    + exists Waiting. cbn [mutate trace setErrors isPending].
      rewrite follow_app, Hf. repeat split; try discriminate.
      destruct ph; try reflexivity; try congruence.
      destruct Hw as [Hw _]. rewrite Hw in P by reflexivity. discriminate.
Qed.

(** X5. When the request the mutation follows succeeds but the non-empty
    [returnUrl] is not well-formed percent-encoding, the success handler
    logs the user and ends in a URIError without navigating; the mutation
    is no longer pending, and the only thing that can follow is the toast
    the library raises for the exception, if it raises one. *)
Theorem malformed_return_url_strands_login pg data r :
  isPending (store pg) = true ->
  returnUrl (store pg) = Some r ->
  r <> [] ->
  decodeURIComponent r = None ->
  trace (onSuccess data (store pg))
  = trace (store pg) ++ [ConsoleLog (user data); Uncaught URIError]
  /\ trace (store (act pg (Do (Resolved data))))
     = trace (store pg)
       ++ [ConsoleLog (user data); Uncaught URIError]
       ++ thrownToast onThrow URIError
  /\ isPending (store (act pg (Do (Resolved data)))) = false.
Proof.
  intros P Hr Hne Hd. split; [|split].
  - rewrite onSuccess_emit, Hr, (navigationTarget_malformed r _ Hne Hd).
    reflexivity.
  - cbn [SignIn.act]. rewrite P. cbn [withStore store].
    rewrite succeed_emit, Hr, (navigationTarget_malformed r _ Hne Hd).
    reflexivity.
  - cbn [SignIn.act]. rewrite P. cbn [withStore store].
    rewrite succeed_emit. reflexivity.
Qed.

End BetweenRendersFacts.

(* ------------------------------------------------------------------ *)
(** ** The page at work, with the library's address pattern *)

Section Walkthrough.

Import Scenario.

Local Abbreviation step := (SignIn.step Zod.emailRegex).
Local Abbreviation run := (SignIn.run Zod.emailRegex).

(** An empty form: both fields get their message and nothing is sent. *)
Example empty_form_is_blocked :
  step (initial []) Submit
  = setErrors {| email := Some (lit "Invalid email address");
                 password := Some (lit "Password is required") |}
      (initial []).
Proof. reflexivity. Qed.

Example malformed_email_is_blocked :
  step (filled [] {| email := lit "alice.example.com";
                     password := lit "secret" |}) Submit
  = setErrors {| email := Some (lit "Invalid email address");
                 password := None |}
      (filled [] {| email := lit "alice.example.com";
                    password := lit "secret" |}).
Proof. reflexivity. Qed.

Example blank_password_is_blocked :
  errors (step (filled [] {| email := lit "alice@example.com";
                             password := lit "   " |}) Submit)
  = {| email := None; password := Some (lit "Password is required") |}.
Proof. reflexivity. Qed.

(** The pattern rejects the empty string, so the second message of the
    email schema is never the one shown. *)
Example empty_email_message :
  Zod.runChecks Zod.emailRegex (email formSchema) (lit "  ")
  = ([], [lit "Invalid email address"; lit "Workspace name is required"]).
Proof. reflexivity. Qed.

Example submit_sends_one_request :
  trace (pending []) = [Request alice]
  /\ isPending (pending []) = true /\ inFlight (pending []) = 1%nat.
Proof. repeat split. Qed.

Example second_submit_changes_nothing :
  step (pending []) Submit = pending [].
Proof. reflexivity. Qed.

Example success_goes_to_workspace :
  trace (step (pending []) (Resolved w1))
  = [Request alice;
     ConsoleLog (user w1);
     Navigate (lit "/workspace/w1")].
Proof. reflexivity. Qed.

Example success_goes_to_return_url :
  trace (step (pending (withReturnUrl (lit "%2Fprojects%2F5"))) (Resolved w1))
  = [Request alice;
     ConsoleLog (user w1);
     Navigate (lit "/projects/5")].
Proof. reflexivity. Qed.

(** A value the query parser has already decoded comes out the same. *)
Example success_goes_to_decoded_return_url :
  trace (step (pending (withReturnUrl (lit "/projects/5"))) (Resolved w1))
  = [Request alice;
     ConsoleLog (user w1);
     Navigate (lit "/projects/5")].
Proof. reflexivity. Qed.

Example rejection_is_a_toast :
  step (pending []) (Rejected CredentialFailure invalidCredentials)
  = emit [Toast {| title := lit "Error";
                   description := Some (lit "Invalid credentials");
                   variant := Destructive |}]
      (settle (pending [])).
Proof. reflexivity. Qed.

Example retry_after_rejection :
  trace (run (pending [])
           [Rejected ServerError invalidCredentials; Submit; Resolved w1])
  = [Request alice;
     Toast {| title := lit "Error";
              description := Some (lit "Invalid credentials");
              variant := Destructive |};
     Request alice;
     ConsoleLog (user w1);
     Navigate (lit "/workspace/w1")].
Proof. reflexivity. Qed.

(** *** The claims at concrete inputs *)

Lemma login_navigates_to_workspace_witness :
  returnUrl (pending []) = None
  /\ trace (onSuccess w1 (pending []))
     = [Request alice; ConsoleLog (user w1); Navigate (lit "/workspace/w1")].
Proof.
  split; [reflexivity|].
  exact (login_navigates_to_workspace (pending []) w1
           {| currentWorkspace := JsString (lit "w1") |} (lit "w1")
           eq_refl eq_refl eq_refl).
Defined.

Lemma login_navigates_to_return_url_witness :
  returnUrl (pending (withReturnUrl (lit "%2Fprojects%2F5")))
  = Some (lit "%2Fprojects%2F5")
  /\ decodeURIComponent (lit "%2Fprojects%2F5") = Some (lit "/projects/5")
  /\ trace (onSuccess noWorkspace
              (pending (withReturnUrl (lit "%2Fprojects%2F5"))))
     = [Request alice; ConsoleLog (user noWorkspace);
        Navigate (lit "/projects/5")].
Proof.
  split; [reflexivity|]. split; [reflexivity|].
  apply (login_navigates_to_return_url
           (pending (withReturnUrl (lit "%2Fprojects%2F5"))) noWorkspace
           (lit "%2Fprojects%2F5") (lit "/projects/5")).
  - reflexivity.
  - discriminate.
  - reflexivity.
Defined.

Lemma invalid_form_blocks_submission_witness :
  Zod.emailRegex (trim (lit " alice.example.com")) = false
  /\ trace (step (filled [] {| email := lit " alice.example.com";
                               password := lit "secret" |}) Submit) = []
  /\ exists m,
       email (errors (step (filled [] {| email := lit " alice.example.com";
                                         password := lit "secret" |}) Submit))
       = Some m.
Proof.
  split; [reflexivity|].
  destruct (invalid_form_blocks_submission Zod.emailRegex
              (filled [] {| email := lit " alice.example.com";
                            password := lit "secret" |}))
    as (Htrace & _ & _ & _ & Hemail & _).
  - right. left. reflexivity.
  - split; [exact Htrace|]. apply Hemail. right. reflexivity.
Defined.

Lemma request_carries_trimmed_values_witness :
  isPending (filled [] padded) = false
  /\ Zod.emailRegex (trim (email padded)) = true
  /\ trace (step (filled [] padded) Submit) = [Request alice].
Proof.
  split; [reflexivity|]. split; [reflexivity|].
  destruct (request_carries_trimmed_values Zod.emailRegex (filled [] padded))
    as [Htrace _].
  - reflexivity.
  - reflexivity.
  - discriminate.
  - discriminate.
  - exact Htrace.
Defined.


Lemma rejection_sets_no_field_error_witness :
  trace (step (filled [] alice) Submit)
  = trace (filled [] alice) ++ [Request alice]
  /\ errors (step (step (filled [] alice) Submit)
               (Rejected NetworkFailure invalidCredentials))
     = noErrors.
Proof.
  split; [reflexivity|].
  destruct (rejection_sets_no_field_error Zod.emailRegex (filled [] alice)
              NetworkFailure invalidCredentials alice eq_refl)
    as [Herrors _].
  exact Herrors.
Defined.

Lemma empty_return_url_is_absent_witness :
  returnUrl (pending (withReturnUrl [])) = Some []
  /\ trace (onSuccess w1 (pending (withReturnUrl [])))
     = [Request alice; ConsoleLog (user w1); Navigate (lit "/workspace/w1")].
Proof.
  split; [reflexivity|].
  destruct (empty_return_url_is_absent (pending (withReturnUrl [])) w1
              {| currentWorkspace := JsString (lit "w1") |}
              eq_refl eq_refl)
    as [_ Htrace].
  exact Htrace.
Defined.

Lemma missing_workspace_navigates_to_undefined_witness :
  returnUrl (pending []) = None
  /\ trace (onSuccess noWorkspace (pending []))
     = [Request alice; ConsoleLog (user noWorkspace);
        Navigate (lit "/workspace/undefined")].
Proof.
  split; [reflexivity|].
  exact (missing_workspace_navigates_to_undefined (pending []) noWorkspace
           {| currentWorkspace := JsUndefined |}
           eq_refl eq_refl eq_refl).
Defined.

(** *** Where the code departs from the claims as they are worded *)

(** C4 as worded fails: an email typed with white space around it does not
    match the address pattern, yet the form is valid, since the schema
    trims before it tests: no field gets an error and the request is
    sent. *)
Lemma padded_email_is_submitted :
  Zod.emailRegex (email (fields (filled [] padded))) = false
  /\ trace (step (filled [] padded) Submit) = [Request alice]
  /\ errors (step (filled [] padded) Submit) = noErrors.
Proof. repeat split. Qed.

(** C7 as worded fails: after a rejected login no field carries an error
    message; the failure is in a toast. *)
Lemma rejected_login_shows_no_inline_error :
  errors (step (pending []) (Rejected CredentialFailure invalidCredentials))
  = {| email := None; password := None |}
  /\ trace (step (pending []) (Rejected CredentialFailure invalidCredentials))
     = [Request alice;
        Toast {| title := lit "Error";
                 description := Some (lit "Invalid credentials");
                 variant := Destructive |}].
Proof. split; reflexivity. Qed.

End Walkthrough.

(* ------------------------------------------------------------------ *)
(** ** The further properties at concrete inputs *)

Section CoverageWalkthrough.

Import Scenario.

Local Abbreviation step := (SignIn.step Zod.emailRegex).
Local Abbreviation run := (SignIn.run Zod.emailRegex).
Local Abbreviation resolver := (SignIn.resolver Zod.emailRegex).



Lemma errors_after_submit_witness :
  Zod.emailRegex [] = false
  /\ errors (step (filled [] {| email := lit "alice.example.com";
                                password := lit "  " |}) Submit)
     = {| email := Some (lit "Invalid email address");
          password := Some (lit "Password is required") |}.
Proof.
  split; [reflexivity|].
  exact (errors_after_submit Zod.emailRegex
           (filled [] {| email := lit "alice.example.com";
                         password := lit "  " |}) eq_refl).
Defined.

Lemma parsed_values_are_a_fixed_point_witness :
  resolver padded = inl alice /\ resolver alice = inl alice.
Proof.
  split; [reflexivity|].
  exact (parsed_values_are_a_fixed_point Zod.emailRegex padded alice eq_refl).
Defined.


Lemma plain_return_url_is_kept_witness :
  returnUrl (pending (withReturnUrl (lit "https://example.org/a b")))
  = Some (lit "https://example.org/a b")
  /\ trace (onSuccess w1
              (pending (withReturnUrl (lit "https://example.org/a b"))))
     = [Request alice; ConsoleLog (user w1);
        Navigate (lit "https://example.org/a b")].
Proof.
  split; [reflexivity|].
  apply (plain_return_url_is_kept
           (pending (withReturnUrl (lit "https://example.org/a b"))) w1
           (lit "https://example.org/a b")).
  - reflexivity.
  - discriminate.
  - reflexivity.
Defined.

Lemma missing_user_is_a_type_error_witness :
  returnUrl (pending (withReturnUrl [])) = Some []
  /\ trace (onSuccess {| user := None |} (pending (withReturnUrl [])))
     = [Request alice; ConsoleLog None; Uncaught TypeError].
Proof.
  split; [reflexivity|].
  apply (missing_user_is_a_type_error (pending (withReturnUrl []))
           {| user := None |}).
  - right. reflexivity.
  - reflexivity.
Defined.




End CoverageWalkthrough.

(* ------------------------------------------------------------------ *)
(** ** The page between renders, at concrete inputs *)

Section BetweenRendersWalkthrough.

Import Scenario.

Local Abbreviation act := (SignIn.act Zod.emailRegex handsOver).
Local Abbreviation play := (SignIn.play Zod.emailRegex handsOver).
Local Abbreviation renderedSubmits :=
  (SignIn.renderedSubmits Zod.emailRegex handsOver).

Lemma filledPage_rendered params : renderedSubmits params (filledPage params).
Proof.
  change (filledPage params)
    with (act (act (firstRender params) (Do (Input EmailField (email alice))))
            (Do (Input PasswordField (password alice)))).
  repeat (apply rendered_act; [discriminate|]). apply rendered_first.
Qed.

Lemma session_rendered : renderedSubmits [] (play (filledPage []) session).
Proof.
  cbv [SignIn.play fold_left session].
  apply rendered_act; [discriminate|].
  apply rendered_submit.
  do 2 (apply rendered_act; [discriminate|]).
  apply rendered_submit, filledPage_rendered.
Qed.

Example session_trace :
  trace (store (play (filledPage []) session))
  = [Request alice;
     Toast {| title := lit "Error";
              description := Some (lit "Invalid credentials");
              variant := Destructive |};
     Request {| email := lit "alice@example.com";
                password := lit "hunter2" |};
     ConsoleLog (user w1);
     Navigate (lit "/workspace/w1")].
Proof. reflexivity. Qed.

(** A request replaced by a later one settles without a trace. *)
Example superseded_request_settles_silently :
  store (play (filledPage []) [Do Submit; Do Submit; Superseded])
  = forget (store (play (filledPage []) [Do Submit; Do Submit]))
  /\ inFlight (store (play (filledPage []) [Do Submit; Do Submit; Superseded]))
     = 1%nat.
Proof. split; reflexivity. Qed.


Lemma effects_come_in_order_witness :
  exists ph,
    follow (trace (store (play (filledPage []) session))) (Some Idle)
    = Some ph
    /\ ph <> Logged
    /\ (ph = Waiting
        <-> isPending (store (play (filledPage []) session)) = true).
Proof.
  exact (effects_come_in_order Zod.emailRegex handsOver []
           (play (filledPage []) session) session_rendered).
Defined.

Lemma malformed_return_url_strands_login_witness :
  isPending (pending (withReturnUrl (lit "100%"))) = true
  /\ returnUrl (pending (withReturnUrl (lit "100%"))) = Some (lit "100%")
  /\ decodeURIComponent (lit "100%") = None
  /\ trace (store (act {| shown := true;
                          store := pending (withReturnUrl (lit "100%")) |}
                     (Do (Resolved w1))))
     = [Request alice; ConsoleLog (user w1); Uncaught URIError;
        Toast {| title := lit "Error";
                 description := Some (lit "URI malformed");
                 variant := Destructive |}].
Proof.
  split; [reflexivity|]. split; [reflexivity|]. split; [reflexivity|].
  destruct (malformed_return_url_strands_login Zod.emailRegex handsOver
              {| shown := true;
                 store := pending (withReturnUrl (lit "100%")) |}
              w1 (lit "100%"))
    as (_ & Htrace & _).
  - reflexivity.
  - reflexivity.
  - discriminate.
  - reflexivity.
  - exact Htrace.
Defined.

(** *** Where the code departs from the claims as they are worded *)

(** C2 as worded fails: the return address ["100%"] (what the query
    [?returnUrl=100%25] holds) is not empty, yet it has no
    percent-decoding: the success handler ends in a URIError and nothing
    is navigated to. *)
Lemma unencoded_percent_in_return_url_throws :
  returnUrl (pending (withReturnUrl (lit "100%"))) = Some (lit "100%")
  /\ lit "100%" <> []
  /\ decodeURIComponent (lit "100%") = None
  /\ trace (onSuccess w1 (pending (withReturnUrl (lit "100%"))))
     = [Request alice; ConsoleLog (user w1); Uncaught URIError].
Proof. repeat split. discriminate. Qed.


End BetweenRendersWalkthrough.
